(** * gojsonflatten: flattening nested JSON values into one-level maps

    A shallow embedding of [flatten.go].  The Go program walks a tree of
    [map[string]interface{}], [[]interface{}] and leaf values, and writes
    the leaves into one flat [map[string]interface{}] whose keys spell
    the path to each leaf.

    Modelling choices, all taken from the source:
    - a nested Go map is ranged over, and Go leaves the order of that
      walk unspecified, so a nested map is the list of its entries in the
      order [range] visits them; every statement below quantifies over
      all such lists, hence over every order;
    - the flat map is only written by key, so it is a [gmap string Value];
    - [flatten] mutates the flat map it is handed: the model passes the
      map in and returns the updated map next to the error;
    - Go's [(T, error)] results are pairs, [nil] being [None];
    - [int] is the 64-bit two's complement integer of the usual targets,
      a [Z] with the wrap-around of [depth++] and [depth-1] written out. *)

From stdpp Require Import gmap strings list fin_maps pretty.
From Stdlib Require Import ZArith Lia Ascii String.

Local Open Scope Z_scope.

(** ** The parts of the Go runtime and library the program uses *)

Module Go.

(** Two's complement wrap-around of a 64-bit [int]. *)
Definition int_wrap (z : Z) : Z := (z + 2 ^ 63) mod 2 ^ 64 - 2 ^ 63.

Definition int_min : Z := - 2 ^ 63.
Definition int_max : Z := 2 ^ 63 - 1.

(** [strconv.Itoa]: the decimal text of an [int]. *)
Definition Itoa (i : Z) : string := pretty i.

(** The class [\s] of Go's [regexp] (RE2 syntax): tab, newline, form
    feed, carriage return and space. *)
Definition is_space (c : ascii) : bool :=
  match c with
  | "009"%char | "010"%char | "012"%char | "013"%char | " "%char => true
  | _ => false
  end.

End Go.

(** ** Data model *)

(** Leaves of a decoded JSON document, as [encoding/json] stores them in
    an [interface{}]: [nil], [bool], [float64] (kept as its 64 bits) and
    [string].  The flattener never looks inside a leaf. *)
Inductive Scalar : Type :=
| SNil
| SBool (b : bool)
| SFloat64 (bits : Z)
| SString (s : string).

(** The dynamic type switch of [flatten] tells three shapes apart:
    [map[string]interface{}], [[]interface{}], and everything else. *)
#[local] Unset Elimination Schemes.
Inductive Value : Type :=
| VScalar (s : Scalar)
| VMap (m : list (string * Value))
| VSlice (l : list Value).
#[local] Set Elimination Schemes.

Abbreviation Mapping := (list (string * Value)).
Abbreviation FlatMap := (gmap string Value).

Definition VStr (s : string) : Value := VScalar (SString s).

Record SeparatorStyle : Type := mkStyle {
  Before : string;  (* Prepend to key *)
  Middle : string;  (* Add between keys *)
  After  : string   (* Append to key *)
}.

(** Default SeparatorStyles. *)
Definition DotStyle        : SeparatorStyle := mkStyle EmptyString "." EmptyString.
Definition PathStyle       : SeparatorStyle := mkStyle EmptyString "/" EmptyString.
Definition RailsStyle      : SeparatorStyle := mkStyle "[" EmptyString "]".
Definition UnderscoreStyle : SeparatorStyle := mkStyle EmptyString "_" EmptyString.

(** The two errors of the package, and the errors [encoding/json] may
    hand back, which the package passes on untouched. *)
Inductive Error : Type :=
| ErrNotValidInput
| ErrNotValidJsonInput
| ErrEncodingJson (msg : string).

(** [isJsonMap.MatchString] for the pattern [^\s*\{]: skip the leading
    [\s] characters, then demand an opening brace. *)
Fixpoint isJsonMap (s : string) : bool :=
  match s with
  | EmptyString => false
  | String c rest =>
      if Go.is_space c then isJsonMap rest else Ascii.eqb c "{"%char
  end.

(** ** Key composer *)

(** [enkey] combines the prefix, subKey, and SeparatorStyle to form a
    new key. *)
Definition enkey (top : bool) (prefix subKey : string)
    (style : SeparatorStyle) : string :=
  let key := prefix in
  if top then
    key +:+ subKey
  else
    key +:+ (((Before style +:+ Middle style) +:+ subKey) +:+ After style).

(** ** Recursive flattener *)

(** [flatten] recursively processes nested structures and flattens them.
    The closure [assign] and the two [range] loops are local to the
    function, as in the source; the loops drop the error [assign]
    returns. *)
Fixpoint flatten (top : bool) (flatMap : FlatMap) (nested : Value)
    (prefix : string) (style : SeparatorStyle) (depth : Z)
    (keepArrays : bool) {struct nested} : FlatMap * option Error :=
  if depth =? 0 then
    (<[prefix := nested]> flatMap, None)
  else
    let assign (flatMap : FlatMap) (newKey : string) (v : Value)
        : FlatMap * option Error :=
      match v with
      | VMap _ | VSlice _ =>
          match flatten false flatMap v newKey style
                        (Go.int_wrap (depth - 1)) keepArrays with
          | (flatMap', Some err) => (flatMap', Some err)
          | (flatMap', None) => (flatMap', None)
          end
      | VScalar _ => (<[newKey := v]> flatMap, None)
      end in
    match nested with
    | VMap m =>
        let flatMap' :=
          (fix range (entries : Mapping) (flatMap : FlatMap) : FlatMap :=
             match entries with
             | [] => flatMap
             | (k, v) :: entries' =>
                 let newKey := enkey top prefix k style in
                 range entries' (assign flatMap newKey v).1
             end) m flatMap in
        (flatMap', None)
    | VSlice l =>
        if negb keepArrays then
          let flatMap' :=
            (fix range (i : Z) (items : list Value) (flatMap : FlatMap)
                 : FlatMap :=
               match items with
               | [] => flatMap
               | v :: items' =>
                   let newKey := enkey top prefix (Go.Itoa i) style in
                   range (i + 1) items' (assign flatMap newKey v).1
               end) 0 l flatMap in
          (flatMap', None)
        else
          (<[prefix := nested]> flatMap, None)
    | VScalar _ => (flatMap, Some ErrNotValidInput)
    end.

(** The closure and the loops of [flatten] once more, as functions of
    their own: the proofs go through them, [flatten_unfold] below shows
    they are the pieces [flatten] is made of. *)
Definition assign (style : SeparatorStyle) (depth : Z) (keepArrays : bool)
    (flatMap : FlatMap) (newKey : string) (v : Value)
    : FlatMap * option Error :=
  match v with
  | VMap _ | VSlice _ =>
      match flatten false flatMap v newKey style
                    (Go.int_wrap (depth - 1)) keepArrays with
      | (flatMap', Some err) => (flatMap', Some err)
      | (flatMap', None) => (flatMap', None)
      end
  | VScalar _ => (<[newKey := v]> flatMap, None)
  end.

Fixpoint rangeMap (top : bool) (prefix : string) (style : SeparatorStyle)
    (depth : Z) (keepArrays : bool) (entries : Mapping)
    (flatMap : FlatMap) : FlatMap :=
  match entries with
  | [] => flatMap
  | (k, v) :: entries' =>
      let newKey := enkey top prefix k style in
      rangeMap top prefix style depth keepArrays entries'
        (assign style depth keepArrays flatMap newKey v).1
  end.

Fixpoint rangeSlice (top : bool) (prefix : string) (style : SeparatorStyle)
    (depth : Z) (keepArrays : bool) (i : Z) (items : list Value)
    (flatMap : FlatMap) : FlatMap :=
  match items with
  | [] => flatMap
  | v :: items' =>
      let newKey := enkey top prefix (Go.Itoa i) style in
      rangeSlice top prefix style depth keepArrays (i + 1) items'
        (assign style depth keepArrays flatMap newKey v).1
  end.

(** ** Entry points *)

(** [flattenInternal] generates a flat map from a nested map with a
    specified depth, optionally preserving arrays.  At depth 0 the Go
    function hands back the very map it was given; read as a flat map
    that is the map of its entries. *)
Definition flattenInternal (nested : Mapping) (prefix : string)
    (style : SeparatorStyle) (depth : Z) (preserveArray : bool)
    : option FlatMap * option Error :=
  if depth =? 0 then
    (Some (list_to_map nested), None)
  else
    let depth := if 0 <? depth then Go.int_wrap (depth + 1) else depth in
    let flatmap : FlatMap := ∅ in
    match flatten true flatmap (VMap nested) prefix style depth
                  preserveArray with
    | (_, Some err) => (None, Some err)
    | (flatmap, None) => (Some flatmap, None)
    end.

(** [Flatten] generates a flat map from a nested map with a specified
    depth. *)
Definition Flatten (nested : Mapping) (prefix : string)
    (style : SeparatorStyle) (depth : Z) : option FlatMap * option Error :=
  flattenInternal nested prefix style depth false.

(** [FlattenNoArray] does the same, preserving arrays. *)
Definition FlattenNoArray (nested : Mapping) (prefix : string)
    (style : SeparatorStyle) (depth : Z) : option FlatMap * option Error :=
  flattenInternal nested prefix style depth true.

(** The text front end.  [json.Unmarshal] and [json.Marshal] belong to
    Go's standard library, not to this package: they are parameters of
    the model.  [json_Unmarshal] gives the map left in [nested] and the
    error; [json_Marshal] gives the encoded text and the error. *)
Section TextFrontEnd.

Variable json_Unmarshal : string → Mapping * option Error.
Variable json_Marshal : option FlatMap → string * option Error.

Definition flattenStringInternal (nestedString prefix : string)
    (style : SeparatorStyle) (depth : Z) (preserveArray : bool)
    : string * option Error :=
  if negb (isJsonMap nestedString) then
    (EmptyString, Some ErrNotValidJsonInput)
  else
    match json_Unmarshal nestedString with
    | (_, Some err) => (EmptyString, Some err)
    | (nested, None) =>
        match flattenInternal nested prefix style depth preserveArray with
        | (_, Some err) => (EmptyString, Some err)
        | (flatmap, None) =>
            match json_Marshal flatmap with
            | (_, Some err) => (EmptyString, Some err)
            | (flatBytes, None) => (flatBytes, None)
            end
        end
    end.

Definition FlattenString (nestedString prefix : string)
    (style : SeparatorStyle) (depth : Z) : string * option Error :=
  flattenStringInternal nestedString prefix style depth false.

Definition FlattenStringNoArray (nestedString prefix : string)
    (style : SeparatorStyle) (depth : Z) : string * option Error :=
  flattenStringInternal nestedString prefix style depth true.

End TextFrontEnd.

(** ** Vocabulary of the properties *)

Definition is_scalar (v : Value) : Prop :=
  match v with
  | VScalar _ => True
  | VMap _ | VSlice _ => False
  end.

(** Nesting height: how many maps and slices sit inside one another. *)
Fixpoint height (v : Value) : nat :=
  match v with
  | VScalar _ => 0%nat
  | VMap m =>
      S ((fix go (entries : Mapping) : nat :=
            match entries with
            | [] => 0%nat
            | (_, v) :: entries' => Nat.max (height v) (go entries')
            end) m)
  | VSlice l =>
      S ((fix go (items : list Value) : nat :=
            match items with
            | [] => 0%nat
            | v :: items' => Nat.max (height v) (go items')
            end) l)
  end.

(** The key [flatten] builds on the way down a path of sub-keys: the
    first segment is composed with the caller's [top], the others as
    nested segments. *)
Fixpoint enkeyPath (top : bool) (prefix : string) (path : list string)
    (style : SeparatorStyle) : string :=
  match path with
  | [] => prefix
  | k :: path' => enkeyPath false (enkey top prefix k style) path' style
  end.

(** A text passes the lexical check of the front end when it is some
    [\s] characters followed by an opening brace and anything. *)
Definition begins_with_brace (s : string) : Prop :=
  ∃ ws rest : string,
    s = ws +:+ String "{"%char rest ∧
    Forall (λ c, Go.is_space c = true) (list_ascii_of_string ws).

Abbreviation all_scalars :=
  (map_Forall (λ (_ : string) (x : Value), is_scalar x)).

(** What one run of [flatten] keeps true when it flattens in full:
    started below zero with room for the height of the value, the depth
    never comes back to 0, so nothing but leaves is written. *)
Definition writes_scalars (style : SeparatorStyle) (v : Value) : Prop :=
  ∀ top (flatMap : FlatMap) prefix depth,
    depth < 0 →
    Z.of_nat (height v) ≤ depth - Go.int_min →
    all_scalars flatMap →
    all_scalars (flatten top flatMap v prefix style depth false).1.

(** Putting [p] in front of every key of a result. *)
Definition shift (p : string) (r : FlatMap * option Error)
    : FlatMap * option Error :=
  (kmap (String.append p) r.1, r.2).

(** Running [flatten] with [p] in front of the prefix, on a flat map
    whose keys all carry [p], is running it without and putting [p] in
    front of every key afterwards. *)
Definition shifts (p : string) (style : SeparatorStyle) (keepArrays : bool)
    (v : Value) : Prop :=
  ∀ top (flatMap : FlatMap) q depth,
    flatten top (kmap (String.append p) flatMap) v (p +:+ q) style depth
            keepArrays =
    shift p (flatten top flatMap v q style depth keepArrays).

(** Every key of the flat map [run prefix] is [prefix] followed by a key
    of the flat map the same run gives for the empty prefix, and the two
    maps hold the same values under these keys: the prefix is put in
    front once, and nowhere else. *)
Definition prefixed_once (run : string → option FlatMap * option Error)
    (prefix : string) : Prop :=
  ∃ bare : FlatMap,
    run EmptyString = (Some bare, None) ∧
    run prefix = (Some (kmap (String.append prefix) bare), None) ∧
    ∀ key, is_Some (kmap (M2 := gmap string) (String.append prefix) bare !! key) →
           ∃ rest, key = prefix +:+ rest ∧ is_Some (bare !! rest).

(** The documents of the examples. *)
Definition doc_ab : Mapping := [("a", VStr "b")].

Definition doc_abcde : Mapping :=
  [("a", VMap [("b", VMap [("c", VMap [("d", VStr "e")])])])].

Definition doc_abc (leaf : Value) : Mapping :=
  [("a", VMap [("b", VMap [("c", leaf)])])].

Definition doc_z : Mapping := [("z", VSlice [VStr "one"; VStr "two"])].

Definition doc_empty : Mapping := [("a", VMap [])].

(** ** Vocabulary of the further properties *)

(** The values an [int] takes. *)
Definition int_in_range (d : Z) : Prop := Go.int_min ≤ d ≤ Go.int_max.

(** How many times an [int] other than 0 is decremented, wrapping round
    at the smallest [int], before it is 0. *)
Definition steps_to_zero (d : Z) : Z := if 0 <? d then d else d + 2 ^ 64.

(** The walk that enters [v] with remaining depth [d] does not meet the
    depth cutoff: [d] is not 0 and outlasts the nesting of [v]. *)
Definition uncut (d : Z) (v : Value) : Prop :=
  int_in_range d ∧ d ≠ 0 ∧ Z.of_nat (height v) ≤ steps_to_zero d.

(** What a walk without cutoff may store: leaves, and whole slices when
    slices are kept. *)
Definition storable (keepArrays : bool) (v : Value) : Prop :=
  match v with
  | VScalar _ => True
  | VSlice _ => keepArrays = true
  | VMap _ => False
  end.

(** No [[]interface{}] anywhere in the value. *)
Fixpoint no_slices (v : Value) : Prop :=
  match v with
  | VScalar _ => True
  | VMap m =>
      (fix go (entries : Mapping) : Prop :=
         match entries with
         | [] => True
         | (_, v) :: entries' => no_slices v ∧ go entries'
         end) m
  | VSlice _ => False
  end.

(** [strings.Join]: the elements with [sep] between them. *)
Fixpoint join (sep : string) (elems : list string) : string :=
  match elems with
  | [] => EmptyString
  | [x] => x
  | x :: rest => x +:+ (sep +:+ join sep rest)
  end.

(** The document that holds one leaf at the end of a path of keys. *)
Fixpoint nest (path : list string) (leaf : Scalar) : Value :=
  match path with
  | [] => VScalar leaf
  | k :: path' => VMap [(k, nest path' leaf)]
  end.

(** The keys one entry of a map puts into the flat map. *)
Definition entry_keys (top : bool) (prefix : string) (style : SeparatorStyle)
    (depth : Z) (keepArrays : bool) (entry : string * Value) : gset string :=
  dom (flatten top ∅ (VMap [entry]) prefix style depth keepArrays).1.

(** A document whose flattened keys collide in Dot style, and the same
    map ranged over in the other order. *)
Definition doc_clash : Mapping :=
  [("a", VMap [("b", VStr "x")]); ("a.b", VStr "y")].

Definition doc_clash_swapped : Mapping :=
  [("a.b", VStr "y"); ("a", VMap [("b", VStr "x")])].

(** ** Induction over values *)

(** The induction principle a nested tree needs: the hypothesis is
    available for every value stored in a map or a slice. *)
Section ValueInduction.

Variable P : Value → Prop.
Hypothesis P_scalar : ∀ s, P (VScalar s).
Hypothesis P_map : ∀ m, Forall (λ kv, P kv.2) m → P (VMap m).
Hypothesis P_slice : ∀ l, Forall P l → P (VSlice l).

Fixpoint Value_ind (v : Value) : P v :=
  match v with
  | VScalar s => P_scalar s
  | VMap m =>
      P_map m
        ((fix entries_ind (m : Mapping) : Forall (λ kv, P kv.2) m :=
            match m with
            | [] => List.Forall_nil _
            | (k, v) :: m' =>
                @List.Forall_cons _ (λ kv, P kv.2) (k, v) m'
                  (Value_ind v) (entries_ind m')
            end) m)
  | VSlice l =>
      P_slice l
        ((fix items_ind (l : list Value) : Forall P l :=
            match l with
            | [] => List.Forall_nil _
            | v :: l' =>
                @List.Forall_cons _ P v l' (Value_ind v) (items_ind l')
            end) l)
  end.

End ValueInduction.

(** ** The shape of [flatten] *)

Lemma flatten_unfold top flatMap nested prefix style depth keepArrays :
  flatten top flatMap nested prefix style depth keepArrays =
  if depth =? 0 then (<[prefix := nested]> flatMap, None)
  else match nested with
       | VMap m =>
           (rangeMap top prefix style depth keepArrays m flatMap, None)
       | VSlice l =>
           if negb keepArrays then
             (rangeSlice top prefix style depth keepArrays 0 l flatMap, None)
           else (<[prefix := nested]> flatMap, None)
       | VScalar _ => (flatMap, Some ErrNotValidInput)
       end.
Proof.
  destruct nested as [s|m|l]; cbn [flatten]; destruct (depth =? 0); try reflexivity.
  - f_equal. revert flatMap. induction m as [|[k v] m IH]; intros; [reflexivity|].
    cbn [rangeMap]. rewrite <- IH. reflexivity.
  - destruct keepArrays; cbn [negb]; [reflexivity|]. f_equal.
    generalize 0 as i. revert flatMap.
    induction l as [|v l IH]; intros; [reflexivity|].
    cbn [rangeSlice]. rewrite <- IH. reflexivity.
Qed.

Lemma flatten_depth_0 top flatMap nested prefix style keepArrays :
  flatten top flatMap nested prefix style 0 keepArrays =
  (<[prefix := nested]> flatMap, None).
Proof. by rewrite flatten_unfold. Qed.

Lemma flatten_map top flatMap m prefix style depth keepArrays :
  depth ≠ 0 →
  flatten top flatMap (VMap m) prefix style depth keepArrays =
  (rangeMap top prefix style depth keepArrays m flatMap, None).
Proof.
  intros Hd. rewrite flatten_unfold.
  by destruct (Z.eqb_spec depth 0).
Qed.

Lemma flatten_slice top flatMap l prefix style depth :
  depth ≠ 0 →
  flatten top flatMap (VSlice l) prefix style depth false =
  (rangeSlice top prefix style depth false 0 l flatMap, None).
Proof.
  intros Hd. rewrite flatten_unfold.
  by destruct (Z.eqb_spec depth 0).
Qed.

Lemma flatten_scalar top flatMap s prefix style depth keepArrays :
  depth ≠ 0 →
  flatten top flatMap (VScalar s) prefix style depth keepArrays =
  (flatMap, Some ErrNotValidInput).
Proof.
  intros Hd. rewrite flatten_unfold.
  by destruct (Z.eqb_spec depth 0).
Qed.

(** [assign] hands back exactly what the recursive call returned. *)
Lemma assign_nested style depth keepArrays flatMap newKey v :
  ¬ is_scalar v →
  assign style depth keepArrays flatMap newKey v =
  flatten false flatMap v newKey style (Go.int_wrap (depth - 1)) keepArrays.
Proof.
  intros Hv. destruct v as [s|m|l]; [by destruct Hv| |]; unfold assign;
    by destruct (flatten _ _ _ _ _ _ _) as [fm [e|]].
Qed.

Lemma assign_scalar style depth keepArrays flatMap newKey s :
  assign style depth keepArrays flatMap newKey (VScalar s) =
  (<[newKey := VScalar s]> flatMap, None).
Proof. reflexivity. Qed.

(** A map or a slice never makes [flatten] fail: the only failing branch
    is the one for the other dynamic types. *)
Lemma flatten_nested_no_error top flatMap nested prefix style depth keepArrays :
  ¬ is_scalar nested →
  (flatten top flatMap nested prefix style depth keepArrays).2 = None.
Proof.
  intros Hv. rewrite flatten_unfold.
  destruct (depth =? 0); [done|].
  destruct nested as [s|m|l]; [by destruct Hv|done|].
  by destruct keepArrays.
Qed.

Lemma assign_no_error style depth keepArrays flatMap newKey v :
  (assign style depth keepArrays flatMap newKey v).2 = None.
Proof.
  destruct v as [s|m|l]; [done| |];
    (rewrite assign_nested by (by intros []));
    by apply flatten_nested_no_error; intros [].
Qed.

Lemma rangeMap_app top prefix style depth keepArrays m1 m2 flatMap :
  rangeMap top prefix style depth keepArrays (m1 ++ m2) flatMap =
  rangeMap top prefix style depth keepArrays m2
    (rangeMap top prefix style depth keepArrays m1 flatMap).
Proof.
  revert flatMap. induction m1 as [|[k v] m1 IH]; intros; [done|].
  cbn [app rangeMap]. by rewrite IH.
Qed.

(** ** Machine integers *)

Lemma int_wrap_in_range z :
  Go.int_min ≤ z ≤ Go.int_max → Go.int_wrap z = z.
Proof.
  unfold Go.int_min, Go.int_max, Go.int_wrap. intros Hz.
  rewrite Z.mod_small by lia. lia.
Qed.

(** ** Heights *)

Lemma height_entries m :
  Forall (λ kv : string * Value, (height kv.2 < height (VMap m))%nat) m.
Proof.
  cbn [height]. induction m as [|[k v] m IH]; constructor; cbn [snd].
  - lia.
  - eapply Forall_impl; [exact IH|]. cbn. intros; lia.
Qed.

Lemma height_items l :
  Forall (λ v, (height v < height (VSlice l))%nat) l.
Proof.
  cbn [height]. induction l as [|v l IH]; constructor.
  - lia.
  - eapply Forall_impl; [exact IH|]. cbn. intros; lia.
Qed.

(** ** A full flatten stores leaves only *)

Section FullFlatten.

Variable style : SeparatorStyle.

Local Abbreviation writes_scalars := (writes_scalars style).

Lemma assign_writes_scalars depth (flatMap : FlatMap) newKey v :
  writes_scalars v →
  depth <= 0 → Go.int_min < depth →
  Z.of_nat (height v) < depth - Go.int_min →
  all_scalars flatMap →
  all_scalars (assign style depth false flatMap newKey v).1.
Proof.
  intros IH Hneg Hmin Hh Hfm.
  destruct v as [s|m|l].
  - rewrite assign_scalar. by apply map_Forall_insert_2.
  - rewrite assign_nested by (by intros []).
    rewrite int_wrap_in_range by (unfold Go.int_min, Go.int_max in *; lia).
    apply IH; [lia|lia|done].
  - rewrite assign_nested by (by intros []).
    rewrite int_wrap_in_range by (unfold Go.int_min, Go.int_max in *; lia).
    apply IH; [lia|lia|done].
Qed.

Lemma rangeMap_writes_scalars top prefix depth m :
  Forall (λ kv : string * Value, writes_scalars kv.2) m →
  depth < 0 → Go.int_min < depth →
  Forall (λ kv : string * Value,
            Z.of_nat (height kv.2) < depth - Go.int_min) m →
  ∀ flatMap : FlatMap,
    all_scalars flatMap →
    all_scalars (rangeMap top prefix style depth false m flatMap).
Proof.
  intros IH Hneg Hmin Hh.
  induction m as [|[k v] m IHm]; intros flatMap Hfm; [done|].
  inversion_clear IH as [|?? IHv IHrest].
  inversion_clear Hh as [|?? Hv Hrest].
  cbn [rangeMap]. apply IHm; [done..|].
  apply assign_writes_scalars; [done|lia|done..].
Qed.

Lemma rangeSlice_writes_scalars top prefix depth l :
  Forall writes_scalars l →
  depth < 0 → Go.int_min < depth →
  Forall (λ v, Z.of_nat (height v) < depth - Go.int_min) l →
  ∀ i (flatMap : FlatMap),
    all_scalars flatMap →
    all_scalars (rangeSlice top prefix style depth false i l flatMap).
Proof.
  intros IH Hneg Hmin Hh.
  induction l as [|v l IHl]; intros i flatMap Hfm; [done|].
  inversion_clear IH as [|?? IHv IHrest].
  inversion_clear Hh as [|?? Hv Hrest].
  cbn [rangeSlice]. apply IHl; [done..|].
  apply assign_writes_scalars; [done|lia|done..].
Qed.

Lemma flatten_writes_scalars v : writes_scalars v.
Proof.
  induction v as [s|m IH|l IH] using Value_ind;
    intros top flatMap prefix depth Hneg Hh Hfm.
  - by rewrite flatten_scalar by lia.
  - rewrite flatten_map by lia. cbn [fst].
    assert (Go.int_min < depth) by (cbn [height] in Hh; lia).
    apply rangeMap_writes_scalars; [done..| |done].
    eapply Forall_impl; [apply height_entries|].
    intros [k v] Hlt; cbn [snd] in *; lia.
  - rewrite flatten_slice by lia. cbn [fst].
    assert (Go.int_min < depth) by (cbn [height] in Hh; lia).
    apply rangeSlice_writes_scalars; [done..| |done].
    eapply Forall_impl; [apply height_items|].
    intros v Hlt; cbn beta in *; lia.
Qed.

End FullFlatten.

(** ** The prefix travels through the walk untouched *)

Lemma append_assoc (s1 s2 s3 : string) :
  (s1 +:+ s2) +:+ s3 = s1 +:+ (s2 +:+ s3).
Proof.
  induction s1 as [|c s1 IH]; [reflexivity|].
  change (String c ((s1 +:+ s2) +:+ s3) = String c (s1 +:+ (s2 +:+ s3))).
  by rewrite IH.
Qed.

Lemma append_empty_r (s : string) : s +:+ EmptyString = s.
Proof.
  induction s as [|c s IH]; [reflexivity|].
  change (String c (s +:+ EmptyString) = String c s). by rewrite IH.
Qed.

Lemma enkey_app top p q subKey style :
  enkey top (p +:+ q) subKey style = p +:+ enkey top q subKey style.
Proof. unfold enkey. cbv zeta. destruct top; by rewrite append_assoc. Qed.

Section PrefixShift.

Variables (p : string) (style : SeparatorStyle) (keepArrays : bool).

Local Abbreviation shift := (shift p).
Local Abbreviation shifts := (shifts p style keepArrays).

Lemma assign_shifts depth (flatMap : FlatMap) newKey v :
  shifts v →
  assign style depth keepArrays (kmap (String.append p) flatMap)
         (p +:+ newKey) v =
  shift (assign style depth keepArrays flatMap newKey v).
Proof.
  intros IH. destruct v as [s|m|l].
  - rewrite !assign_scalar. unfold shift. cbn [fst snd].
    by rewrite kmap_insert by apply _.
  - rewrite !assign_nested by (by intros []). apply IH.
  - rewrite !assign_nested by (by intros []). apply IH.
Qed.

Lemma rangeMap_shifts top q depth m :
  Forall (λ kv : string * Value, shifts kv.2) m →
  ∀ flatMap : FlatMap,
    rangeMap top (p +:+ q) style depth keepArrays m
             (kmap (String.append p) flatMap) =
    kmap (String.append p) (rangeMap top q style depth keepArrays m flatMap).
Proof.
  induction m as [|[k v] m IHm]; intros IH flatMap; [done|].
  inversion_clear IH as [|?? IHv IHrest].
  cbn [rangeMap]. rewrite enkey_app, assign_shifts by done.
  unfold shift. cbn [fst]. by apply IHm.
Qed.

Lemma rangeSlice_shifts top q depth l :
  Forall shifts l →
  ∀ i (flatMap : FlatMap),
    rangeSlice top (p +:+ q) style depth keepArrays i l
               (kmap (String.append p) flatMap) =
    kmap (String.append p)
         (rangeSlice top q style depth keepArrays i l flatMap).
Proof.
  induction l as [|v l IHl]; intros IH i flatMap; [done|].
  inversion_clear IH as [|?? IHv IHrest].
  cbn [rangeSlice]. rewrite enkey_app, assign_shifts by done.
  unfold shift. cbn [fst]. by apply IHl.
Qed.

Lemma flatten_shifts v : shifts v.
Proof.
  induction v as [s|m IH|l IH] using Value_ind;
    intros top flatMap q depth; rewrite !flatten_unfold;
    destruct (depth =? 0); unfold shift; cbn [fst snd];
    try (by rewrite kmap_insert by apply _); try done.
  - by rewrite rangeMap_shifts.
  - destruct (negb keepArrays); cbn [fst snd].
    + by rewrite rangeSlice_shifts.
    + by rewrite kmap_insert by apply _.
Qed.

End PrefixShift.

(** ** The entry point above the walk *)

(** The depth [flattenInternal] starts the walk with. *)
Lemma flattenInternal_nonzero nested prefix style depth preserveArray :
  depth ≠ 0 →
  flattenInternal nested prefix style depth preserveArray =
  (Some (flatten true ∅ (VMap nested) prefix style
           (if 0 <? depth then Go.int_wrap (depth + 1) else depth)
           preserveArray).1, None).
Proof.
  intros Hd. unfold flattenInternal.
  destruct (Z.eqb_spec depth 0) as [|_]; [done|]. cbv zeta.
  pose proof (flatten_nested_no_error true ∅ (VMap nested) prefix style
    (if 0 <? depth then Go.int_wrap (depth + 1) else depth) preserveArray)
    as Herr.
  destruct (flatten _ _ _ _ _ _ _) as [fm err]. cbn [fst snd] in *.
  rewrite Herr by (by intros []). done.
Qed.

Lemma rangeSlice_app top prefix style depth keepArrays l1 l2 i flatMap :
  rangeSlice top prefix style depth keepArrays i (l1 ++ l2) flatMap =
  rangeSlice top prefix style depth keepArrays (i + Z.of_nat (List.length l1)) l2
    (rangeSlice top prefix style depth keepArrays i l1 flatMap).
Proof.
  revert i flatMap. induction l1 as [|v l1 IH]; intros.
  - cbn [app rangeSlice List.length]. by rewrite Z.add_0_r.
  - cbn [app rangeSlice List.length]. rewrite IH. f_equal. lia.
Qed.

(** ** The lexical check of the text front end *)

Lemma isJsonMap_spec s : isJsonMap s = true ↔ begins_with_brace s.
Proof.
  split.
  - induction s as [|c s IH]; cbn [isJsonMap]; [done|].
    destruct (Go.is_space c) eqn:Hc.
    + intros (ws & rest & -> & Hws)%IH.
      exists (String c ws), rest. split; [done|].
      cbn [list_ascii_of_string]. by constructor.
    + intros ->%Ascii.eqb_eq. exists EmptyString, s. split; [done|].
      constructor.
  - intros (ws & rest & -> & Hws).
    induction ws as [|c ws IH].
    + reflexivity.
    + cbn [list_ascii_of_string] in Hws.
      inversion_clear Hws as [|?? Hc Hrest].
      change (isJsonMap (String c (ws +:+ String "{"%char rest)) = true).
      cbn [isJsonMap]. rewrite Hc. by apply IH.
Qed.

Lemma not_begins_with_brace s : isJsonMap s = false → ¬ begins_with_brace s.
Proof. intros Hs Hb%isJsonMap_spec. congruence. Qed.

Lemma flattenStringInternal_rejects json_Unmarshal json_Marshal
    s prefix style depth preserveArray :
  ¬ begins_with_brace s →
  flattenStringInternal json_Unmarshal json_Marshal s prefix style depth
    preserveArray = (EmptyString, Some ErrNotValidJsonInput).
Proof.
  intros Hs. unfold flattenStringInternal.
  destruct (isJsonMap s) eqn:Hm; [|done].
  by apply isJsonMap_spec in Hm.
Qed.

(** * The properties of the specification *)

(** ** Depth 0 *)

(** C1, as the specification words it, fails: at depth 0 [Flatten] on
    [{"a":"b"}] with the empty prefix does not return the one-entry map
    that stores the input under the prefix. *)
Lemma C1_depth_zero_single_entry_fails :
  Flatten doc_ab EmptyString DotStyle 0 ≠
  (Some {[ EmptyString := VMap doc_ab ]}, None).
Proof.
  intros H.
  apply (f_equal (λ r : option FlatMap * option Error,
                    fm ← r.1; fm !! "a")) in H.
  vm_compute in H. discriminate H.
Qed.

(** C1, amended: at depth 0 [Flatten] and [FlattenNoArray] return the
    input mapping itself, undecomposed and without the prefix; storing a
    whole node under the prefix is what the recursive [flatten] does
    when its remaining depth is 0. *)
Theorem C1_depth_zero_returns_input nested prefix style :
  Flatten nested prefix style 0 = (Some (list_to_map nested), None) ∧
  FlattenNoArray nested prefix style 0 = (Some (list_to_map nested), None) ∧
  ∀ top (flatMap : FlatMap) node keepArrays,
    flatten top flatMap node prefix style 0 keepArrays =
    (<[prefix := node]> flatMap, None).
Proof.
  split_and!; [reflexivity..|].
  intros. apply flatten_depth_0.
Qed.

(** ** Prefix propagation *)

(** C2, as the specification words it, fails at depth 0: the key ["a"]
    of the result does not begin with the prefix ["flag-"]. *)
Lemma C2_prefix_missing_at_depth_zero :
  ∃ (fm : FlatMap) (key : string),
    Flatten doc_ab "flag-" DotStyle 0 = (Some fm, None) ∧
    is_Some (fm !! key) ∧
    ∀ rest, key ≠ "flag-" +:+ rest.
Proof.
  exists (list_to_map doc_ab), "a". split_and!.
  - reflexivity.
  - vm_compute. eauto.
  - intros rest H. discriminate H.
Qed.

(** C2, amended: for every depth other than 0, every key of the map
    [Flatten] and [FlattenNoArray] return is the caller's prefix
    followed by the key the same call produces for the empty prefix, so
    it begins with the prefix, put there once; and
    [Flatten {"a":"b"} "flag-" style (-1)] is [{"flag-a":"b"}]. *)
Theorem C2_prefix_propagation nested prefix style depth (Hdepth : depth ≠ 0) :
  prefixed_once (λ p, Flatten nested p style depth) prefix ∧
  prefixed_once (λ p, FlattenNoArray nested p style depth) prefix ∧
  Flatten doc_ab "flag-" style (-1) = (Some {[ "flag-a" := VStr "b" ]}, None).
Proof.
  assert (∀ keepArrays,
    prefixed_once (λ p, flattenInternal nested p style depth keepArrays)
                  prefix) as Hgen.
  { intros keepArrays. unfold prefixed_once.
    eexists. split; [by apply flattenInternal_nonzero|]. split.
    - rewrite flattenInternal_nonzero by done.
      rewrite <- (append_empty_r prefix) at 1.
      rewrite <- (kmap_empty (M2 := gmap string) (String.append prefix)).
      by rewrite flatten_shifts.
    - intros key [x (rest & -> & Hx)%lookup_kmap_Some]; [|apply _].
      exists rest. eauto. }
  split_and!; [apply Hgen..|reflexivity].
Qed.

Lemma C2_prefix_propagation_witness :
  (-1) ≠ 0 ∧
  prefixed_once (λ p, Flatten doc_abcde p UnderscoreStyle (-1)) "flag-".
Proof.
  split; [lia|].
  apply (C2_prefix_propagation doc_abcde "flag-" UnderscoreStyle (-1)). lia.
Defined.

(** ** Depth bookkeeping *)

(** C3: a positive depth [N] is incremented (as an [int]) before the
    walk starts from the empty flat map, and below the largest [int]
    that is [N + 1]; [{"a":{"b":{"c":{"d":"e"}}}}] flattened with the
    empty prefix gives [{"a_b_c": {"d":"e"}}] at depth 2 in Underscore
    style and [{"a/b/c/d": "e"}] at depth 3 in Path style. *)
Theorem C3_depth_adjustment nested prefix style N keepArrays (HN : 0 < N) :
  flattenInternal nested prefix style N keepArrays =
    (Some (flatten true ∅ (VMap nested) prefix style (Go.int_wrap (N + 1))
             keepArrays).1, None) ∧
  (N < Go.int_max → Go.int_wrap (N + 1) = N + 1) ∧
  Flatten doc_abcde EmptyString UnderscoreStyle 2 =
    (Some {[ "a_b_c" := VMap [("d", VStr "e")] ]}, None) ∧
  Flatten doc_abcde EmptyString PathStyle 3 =
    (Some {[ "a/b/c/d" := VStr "e" ]}, None).
Proof.
  split_and!; [| |reflexivity..].
  - rewrite flattenInternal_nonzero by lia.
    by destruct (Z.ltb_spec 0 N); [|lia].
  - intros Hmax. apply int_wrap_in_range.
    unfold Go.int_min, Go.int_max in *. lia.
Qed.

Lemma C3_depth_adjustment_witness :
  0 < 2 ∧
  flattenInternal doc_abcde EmptyString UnderscoreStyle 2 false =
    (Some (flatten true ∅ (VMap doc_abcde) EmptyString UnderscoreStyle
             (Go.int_wrap (2 + 1)) false).1, None).
Proof.
  split; [lia|].
  apply (C3_depth_adjustment doc_abcde EmptyString UnderscoreStyle 2 false).
  lia.
Defined.

(** ** Full flatten *)

(** C4: with depth -1 and sequences not preserved, [Flatten] returns a
    flat map all of whose values are leaves, never a map or a slice.
    The input is any mapping a 64-bit machine can hold: its nesting
    height stays below 2^63, so that the [int] depth, counting down from
    -1, does not come round to 0. *)
Theorem C4_full_flatten_scalars nested prefix style
    (Hfits : Z.of_nat (height (VMap nested)) < 2 ^ 63) :
  ∃ fm : FlatMap,
    Flatten nested prefix style (-1) = (Some fm, None) ∧
    ∀ key v, fm !! key = Some v → is_scalar v.
Proof.
  eexists. split; [by apply flattenInternal_nonzero|].
  apply map_Forall_lookup.
  change (if 0 <? -1 then Go.int_wrap (-1 + 1) else -1) with (-1).
  apply flatten_writes_scalars; [lia| |apply map_Forall_empty].
  unfold Go.int_min. lia.
Qed.

Lemma C4_full_flatten_scalars_witness :
  Z.of_nat (height (VMap doc_abcde)) < 2 ^ 63 ∧
  ∃ fm : FlatMap,
    Flatten doc_abcde "p:" RailsStyle (-1) = (Some fm, None) ∧
    ∀ key v, fm !! key = Some v → is_scalar v.
Proof.
  split; [reflexivity|].
  apply (C4_full_flatten_scalars doc_abcde "p:" RailsStyle). reflexivity.
Defined.

(** ** Sequences *)

(** C5: on [{"z": ["one","two"]}], empty prefix, Dot style, unlimited
    depth, [FlattenNoArray] keeps the slice as the value of ["z"], and
    [Flatten] stores its items under ["z.0"] and ["z.1"]. *)
Theorem C5_array_preservation_toggle :
  FlattenNoArray doc_z EmptyString DotStyle (-1) =
    (Some {[ "z" := VSlice [VStr "one"; VStr "two"] ]}, None) ∧
  Flatten doc_z EmptyString DotStyle (-1) =
    (Some {[ "z.0" := VStr "one"; "z.1" := VStr "two" ]}, None).
Proof. split; reflexivity. Qed.

(** ** Key composition *)

(** C6: [enkey] is a function of its four arguments: at the top level
    it is [prefix + subKey], at nested levels
    [prefix + Before + Middle + subKey + After]; the path a, b, c from
    the empty prefix composes to ["a.b.c"], ["a[b][c]"], ["a/b/c"] and
    ["a_b_c"] in Dot, Rails, Path and Underscore style, and that
    composed path is the key [Flatten] stores the leaf of
    [{"a":{"b":{"c": leaf}}}] under. *)
Theorem C6_key_composition :
  (∀ prefix subKey style, enkey true prefix subKey style = prefix +:+ subKey) ∧
  (∀ prefix subKey style,
     enkey false prefix subKey style =
     (((prefix +:+ Before style) +:+ Middle style) +:+ subKey) +:+ After style) ∧
  enkeyPath true EmptyString ["a"; "b"; "c"] DotStyle = "a.b.c" ∧
  enkeyPath true EmptyString ["a"; "b"; "c"] RailsStyle = "a[b][c]" ∧
  enkeyPath true EmptyString ["a"; "b"; "c"] PathStyle = "a/b/c" ∧
  enkeyPath true EmptyString ["a"; "b"; "c"] UnderscoreStyle = "a_b_c" ∧
  (∀ style leaf,
     Flatten (doc_abc (VScalar leaf)) EmptyString style (-1) =
     (Some {[ enkeyPath true EmptyString ["a"; "b"; "c"] style := VScalar leaf ]},
      None)).
Proof.
  split_and!; try reflexivity.
  intros. unfold enkey. cbv zeta. by rewrite !append_assoc.
Qed.

(** ** Errors *)

(** C7: on a node that is neither a map nor a slice, with remaining
    depth other than 0, [flatten] returns [ErrNotValidInput] at once,
    the flat map as it was handed in.  That is the only failure there
    is: any run of [flatten] either succeeds or returns
    [ErrNotValidInput] with the flat map untouched; and
    [flattenInternal] hands its caller either a map and no error or an
    error and no map. *)
Theorem C7_scalar_node_fails top (flatMap : FlatMap) s prefix style depth
    keepArrays (Hdepth : depth ≠ 0) :
  flatten top flatMap (VScalar s) prefix style depth keepArrays =
    (flatMap, Some ErrNotValidInput) ∧
  (∀ top' (fm : FlatMap) node prefix' style' depth' keep',
     (flatten top' fm node prefix' style' depth' keep').2 = None ∨
     flatten top' fm node prefix' style' depth' keep' =
       (fm, Some ErrNotValidInput)) ∧
  (∀ nested prefix' style' depth' keep',
     (∃ fm : FlatMap,
        flattenInternal nested prefix' style' depth' keep' = (Some fm, None)) ∨
     (∃ err,
        flattenInternal nested prefix' style' depth' keep' = (None, Some err))).
Proof.
  split_and!.
  - by apply flatten_scalar.
  - intros. rewrite flatten_unfold.
    destruct (depth' =? 0); [by left|].
    destruct node as [s'|m|l]; [by right|by left|].
    destruct keep'; by left.
  - intros. unfold flattenInternal.
    destruct (depth' =? 0); [by eauto|]. cbv zeta.
    destruct (flatten _ _ _ _ _ _ _) as [fm [err|]]; eauto.
Qed.

Lemma C7_scalar_node_fails_witness :
  (-1) ≠ 0 ∧
  flatten true {[ "kept" := VStr "x" ]} (VScalar (SFloat64 42)) "p" DotStyle
          (-1) false =
    ({[ "kept" := VStr "x" ]}, Some ErrNotValidInput).
Proof.
  split; [lia|].
  apply (C7_scalar_node_fails true {[ "kept" := VStr "x" ]} (SFloat64 42) "p"
           DotStyle (-1) false).
  lia.
Defined.

(** C8: a text that does not begin, after leading [\s] characters, with
    an opening brace makes [FlattenString] and [FlattenStringNoArray]
    return the empty string and [ErrNotValidJsonInput], whatever the
    JSON codec would do; the empty text, the literals [42] and [false]
    and the array literal [[1, 2]] are such texts. *)
Theorem C8_invalid_text_rejected
    (json_Unmarshal : string → Mapping * option Error)
    (json_Marshal : option FlatMap → string * option Error)
    s prefix style depth (Hs : ¬ begins_with_brace s) :
  FlattenString json_Unmarshal json_Marshal s prefix style depth =
    (EmptyString, Some ErrNotValidJsonInput) ∧
  FlattenStringNoArray json_Unmarshal json_Marshal s prefix style depth =
    (EmptyString, Some ErrNotValidJsonInput) ∧
  ¬ begins_with_brace EmptyString ∧
  ¬ begins_with_brace "42" ∧
  ¬ begins_with_brace "false" ∧
  ¬ begins_with_brace "[1, 2]".
Proof.
  split_and!; try (by apply flattenStringInternal_rejects);
    by apply not_begins_with_brace.
Qed.

Lemma C8_invalid_text_rejected_witness :
  ¬ begins_with_brace " [1, 2]" ∧
  FlattenString (λ _, ([], None)) (λ _, ("{}", None)) " [1, 2]"
                EmptyString PathStyle (-1) =
    (EmptyString, Some ErrNotValidJsonInput).
Proof.
  split; [apply not_begins_with_brace; reflexivity|].
  apply (C8_invalid_text_rejected (λ _, ([], None)) (λ _, ("{}", None))
           " [1, 2]" EmptyString PathStyle (-1)).
  apply not_begins_with_brace; reflexivity.
Defined.

(** C9: [Flatten] and [FlattenNoArray] return a map and no error, for
    every input mapping, prefix, style and depth: [flatten] on a map or
    on a slice returns no error, its loops dropping what [assign]
    returns, and [assign], which only descends into maps and slices,
    has no error to return in the first place. *)
Theorem C9_map_entry_points_never_fail nested prefix style depth :
  (∃ fm : FlatMap, Flatten nested prefix style depth = (Some fm, None)) ∧
  (∃ fm : FlatMap, FlattenNoArray nested prefix style depth = (Some fm, None)) ∧
  (∀ top (flatMap : FlatMap) m prefix' depth' keepArrays,
     (flatten top flatMap (VMap m) prefix' style depth' keepArrays).2 = None) ∧
  (∀ top (flatMap : FlatMap) l prefix' depth' keepArrays,
     (flatten top flatMap (VSlice l) prefix' style depth' keepArrays).2 = None) ∧
  (∀ depth' keepArrays (flatMap : FlatMap) newKey v,
     (assign style depth' keepArrays flatMap newKey v).2 = None).
Proof.
  assert (∀ keepArrays, ∃ fm : FlatMap,
    flattenInternal nested prefix style depth keepArrays = (Some fm, None))
    as Hgen.
  { intros keepArrays. destruct (decide (depth = 0)) as [->|Hd].
    - by eexists.
    - eexists. by apply flattenInternal_nonzero. }
  split_and!; [apply Hgen..| | |];
    intros; try apply assign_no_error;
    by apply flatten_nested_no_error; intros [].
Qed.

(** ** Empty containers *)

(** C10: where [flatten] descends into an empty map, or into an empty
    slice while slices are not preserved, it writes nothing: the flat
    map comes back as it went in, and a map entry (or a last slice item)
    holding such a value can be struck out of the input without changing
    the result; [Flatten {"a": {}}] with depth -1 is the empty flat map
    in every style. *)
Theorem C10_empty_containers_vanish top (flatMap : FlatMap) prefix style depth
    keepArrays (Hdepth : depth ≠ 0) (Hdescent : Go.int_wrap (depth - 1) ≠ 0) :
  flatten top flatMap (VMap []) prefix style depth keepArrays =
    (flatMap, None) ∧
  flatten top flatMap (VSlice []) prefix style depth false =
    (flatMap, None) ∧
  (∀ m1 k m2,
     flatten top flatMap (VMap (m1 ++ (k, VMap []) :: m2)) prefix style depth
             keepArrays =
     flatten top flatMap (VMap (m1 ++ m2)) prefix style depth keepArrays) ∧
  (∀ m1 k m2,
     flatten top flatMap (VMap (m1 ++ (k, VSlice []) :: m2)) prefix style depth
             false =
     flatten top flatMap (VMap (m1 ++ m2)) prefix style depth false) ∧
  (∀ l,
     flatten top flatMap (VSlice (l ++ [VMap []])) prefix style depth false =
     flatten top flatMap (VSlice l) prefix style depth false) ∧
  (∀ l,
     flatten top flatMap (VSlice (l ++ [VSlice []])) prefix style depth false =
     flatten top flatMap (VSlice l) prefix style depth false) ∧
  (∀ style', Flatten doc_empty EmptyString style' (-1) = (Some ∅, None)).
Proof.
  split_and!.
  - by rewrite flatten_map.
  - by rewrite flatten_slice.
  - intros. rewrite !flatten_map, !rangeMap_app by done.
    cbn [rangeMap]. rewrite assign_nested by (by intros []).
    by rewrite flatten_map.
  - intros. rewrite !flatten_map, !rangeMap_app by done.
    cbn [rangeMap]. rewrite assign_nested by (by intros []).
    by rewrite flatten_slice.
  - intros. rewrite !flatten_slice, rangeSlice_app by done.
    cbn [rangeSlice]. rewrite assign_nested by (by intros []).
    by rewrite flatten_map.
  - intros. rewrite !flatten_slice, rangeSlice_app by done.
    cbn [rangeSlice]. rewrite assign_nested by (by intros []).
    by rewrite flatten_slice.
  - reflexivity.
Qed.

Lemma C10_empty_containers_vanish_witness :
  (-1) ≠ 0 ∧ Go.int_wrap (-1 - 1) ≠ 0 ∧
  flatten true ∅ (VMap [("x", VStr "1"); ("a", VMap []); ("y", VStr "2")])
          EmptyString DotStyle (-1) false =
  flatten true ∅ (VMap [("x", VStr "1"); ("y", VStr "2")])
          EmptyString DotStyle (-1) false.
Proof.
  split; [lia|]. split; [by vm_compute|].
  destruct (C10_empty_containers_vanish true ∅ EmptyString DotStyle (-1) false
              ltac:(lia) ltac:(by vm_compute)) as (_ & _ & Hentry & _).
  exact (Hentry [("x", VStr "1")] "a" [("y", VStr "2")]).
Defined.


(** * Further properties of the code *)

(** ** Depths that never cut *)

Lemma int_wrap_pred d :
  int_in_range d → d ≠ 0 → d ≠ 1 →
  int_in_range (Go.int_wrap (d - 1)) ∧
  Go.int_wrap (d - 1) ≠ 0 ∧
  steps_to_zero (Go.int_wrap (d - 1)) = steps_to_zero d - 1.
Proof.
  unfold int_in_range, steps_to_zero, Go.int_min, Go.int_max.
  intros Hr H0 H1.
  destruct (decide (d = - 2 ^ 63)) as [->|Hmin]; [by vm_compute|].
  rewrite int_wrap_in_range by (unfold Go.int_min, Go.int_max; lia).
  destruct (Z.ltb_spec 0 d), (Z.ltb_spec 0 (d - 1)); lia.
Qed.

Lemma steps_to_zero_one d :
  int_in_range d → d ≠ 0 → 2 ≤ steps_to_zero d → d ≠ 1.
Proof. intros _ _ Hs ->. vm_compute in Hs. by apply Hs. Qed.

(** The walk does not meet the cutoff below either. *)
Lemma uncut_child d (h : nat) v :
  int_in_range d → d ≠ 0 →
  Z.of_nat h ≤ steps_to_zero d → (height v < h)%nat → ¬ is_scalar v →
  uncut (Go.int_wrap (d - 1)) v.
Proof.
  intros Hr H0 Hh Hv Hc.
  assert (1 ≤ height v)%nat by (destruct v; [by destruct Hc|cbn; lia..]).
  assert (d ≠ 1) by (apply steps_to_zero_one; [done..|lia]).
  destruct (int_wrap_pred d) as (? & ? & Hs); [done..|].
  split_and!; [done..|]. rewrite Hs. lia.
Qed.

Section Uncut.

Variables (style : SeparatorStyle) (keepArrays : bool).

Lemma assign_uncut_eq d1 d2 (h : nat) (flatMap : FlatMap) newKey v :
  (∀ top (fm : FlatMap) prefix d1 d2,
     uncut d1 v → uncut d2 v →
     flatten top fm v prefix style d1 keepArrays =
     flatten top fm v prefix style d2 keepArrays) →
  int_in_range d1 → d1 ≠ 0 → Z.of_nat h ≤ steps_to_zero d1 →
  int_in_range d2 → d2 ≠ 0 → Z.of_nat h ≤ steps_to_zero d2 →
  (height v < h)%nat →
  assign style d1 keepArrays flatMap newKey v =
  assign style d2 keepArrays flatMap newKey v.
Proof.
  intros IH ???????.
  assert (is_scalar v ∨ ¬ is_scalar v) as [Hs|Hc]
    by (destruct v; [by left|by right; intros []..]).
  { destruct v; [done|by destruct Hs..]. }
  rewrite !assign_nested by done.
  apply IH; by eapply uncut_child.
Qed.

Lemma flatten_uncut_eq v :
  ∀ top (fm : FlatMap) prefix d1 d2,
    uncut d1 v → uncut d2 v →
    flatten top fm v prefix style d1 keepArrays =
    flatten top fm v prefix style d2 keepArrays.
Proof.
  induction v as [s|m IH|l IH] using Value_ind;
    intros top fm prefix d1 d2 (Hr1 & Hz1 & Hh1) (Hr2 & Hz2 & Hh2).
  - by rewrite !flatten_scalar.
  - rewrite !flatten_map by done. f_equal.
    pose proof (height_entries m) as Hlt.
    set (h := height (VMap m)) in *. clearbody h. revert fm.
    induction m as [|[k v] m' IHm]; intros fm; [done|].
    inversion_clear IH as [|?? IHv IHrest].
    inversion_clear Hlt as [|?? Hv Hrest].
    cbn [rangeMap]. cbn [snd] in *.
    rewrite (assign_uncut_eq d1 d2 h) by done.
    by rewrite IHm.
  - rewrite !flatten_unfold.
    destruct (Z.eqb_spec d1 0), (Z.eqb_spec d2 0); try done.
    destruct (negb keepArrays); [|done]. f_equal.
    pose proof (height_items l) as Hlt.
    set (h := height (VSlice l)) in *. clearbody h.
    generalize 0 as i. revert fm.
    induction l as [|v l' IHl]; intros fm i; [done|].
    inversion_clear IH as [|?? IHv IHrest].
    inversion_clear Hlt as [|?? Hv Hrest].
    cbn [rangeSlice].
    rewrite (assign_uncut_eq d1 d2 h) by done.
    by rewrite IHl.
Qed.

End Uncut.

Section UncutStores.

Variables (style : SeparatorStyle) (keepArrays : bool).

Local Abbreviation all_storable :=
  (map_Forall (λ (_ : string) (x : Value), storable keepArrays x)).

Lemma assign_uncut_storable d (h : nat) (flatMap : FlatMap) newKey v :
  (∀ top (fm : FlatMap) prefix d,
     uncut d v → all_storable fm →
     all_storable (flatten top fm v prefix style d keepArrays).1) →
  int_in_range d → d ≠ 0 → Z.of_nat h ≤ steps_to_zero d →
  (height v < h)%nat →
  all_storable flatMap →
  all_storable (assign style d keepArrays flatMap newKey v).1.
Proof.
  intros IH ???? Hfm.
  assert (is_scalar v ∨ ¬ is_scalar v) as [Hs|Hc]
    by (destruct v; [by left|by right; intros []..]).
  { destruct v; [|by destruct Hs..].
    rewrite assign_scalar. by apply map_Forall_insert_2. }
  rewrite assign_nested by done.
  apply IH; [by eapply uncut_child|done].
Qed.

Lemma flatten_uncut_storable v :
  ∀ top (fm : FlatMap) prefix d,
    uncut d v → all_storable fm →
    all_storable (flatten top fm v prefix style d keepArrays).1.
Proof.
  induction v as [s|m IH|l IH] using Value_ind;
    intros top fm prefix d (Hr & Hz & Hh) Hfm.
  - by rewrite flatten_scalar.
  - rewrite flatten_map by done. cbn [fst].
    pose proof (height_entries m) as Hlt.
    set (h := height (VMap m)) in *. clearbody h. revert fm Hfm.
    induction m as [|[k v] m' IHm]; intros fm Hfm; [done|].
    inversion_clear IH as [|?? IHv IHrest].
    inversion_clear Hlt as [|?? Hv Hrest].
    cbn [rangeMap]. cbn [snd] in *.
    apply IHm; [done..|]. by apply (assign_uncut_storable d h).
  - rewrite flatten_unfold.
    destruct (Z.eqb_spec d 0); [done|].
    destruct (negb keepArrays) eqn:Hkeep; cbn [fst].
    + pose proof (height_items l) as Hlt.
      set (h := height (VSlice l)) in *. clearbody h.
      generalize 0 as i. revert fm Hfm.
      induction l as [|v l' IHl]; intros fm Hfm i; [done|].
      inversion_clear IH as [|?? IHv IHrest].
      inversion_clear Hlt as [|?? Hv Hrest].
      cbn [rangeSlice].
      apply IHl; [done..|]. by apply (assign_uncut_storable d h).
    + apply map_Forall_insert_2; [|done]. cbn.
      by apply negb_false_iff.
Qed.

End UncutStores.

(** The depth the walk starts with outlasts the input when the caller's
    depth is negative, or positive and large enough. *)
Lemma uncut_start nested N :
  int_in_range N →
  (N < 0 ∧ Z.of_nat (height (VMap nested)) < 2 ^ 63) ∨
  (0 < N ∧ Z.of_nat (height (VMap nested)) ≤ N + 1) →
  uncut (if 0 <? N then Go.int_wrap (N + 1) else N) (VMap nested).
Proof.
  unfold uncut, int_in_range, steps_to_zero, Go.int_min, Go.int_max.
  intros Hr [[Hneg Hh]|[Hpos Hh]].
  - rewrite !(proj2 (Z.ltb_ge 0 N)) by lia. lia.
  - rewrite (proj2 (Z.ltb_lt 0 N)) by lia.
    destruct (decide (N = 2 ^ 63 - 1)) as [->|Hmax].
    + change (Go.int_wrap (2 ^ 63 - 1 + 1)) with (- 2 ^ 63).
      change (0 <? - 2 ^ 63) with false. cbv iota. lia.
    + rewrite int_wrap_in_range by (unfold Go.int_min, Go.int_max; lia).
      rewrite (proj2 (Z.ltb_lt 0 (N + 1))) by lia. lia.
Qed.

(** X1: a negative depth, and a positive depth [N] with at most [N + 1]
    levels of nesting in the input (the root map counted), give what
    depth -1 gives: nothing is cut off. *)
Theorem depth_saturation nested prefix style N
    (Hint : int_in_range N)
    (Hdeep : (N < 0 ∧ Z.of_nat (height (VMap nested)) < 2 ^ 63) ∨
             (0 < N ∧ Z.of_nat (height (VMap nested)) ≤ N + 1)) :
  Flatten nested prefix style N = Flatten nested prefix style (-1) ∧
  FlattenNoArray nested prefix style N =
    FlattenNoArray nested prefix style (-1).
Proof.
  assert (∀ keepArrays,
    flattenInternal nested prefix style N keepArrays =
    flattenInternal nested prefix style (-1) keepArrays) as Hgen.
  { intros keepArrays.
    rewrite !flattenInternal_nonzero by lia.
    erewrite flatten_uncut_eq; [reflexivity|by apply uncut_start|].
    change (if 0 <? -1 then Go.int_wrap (-1 + 1) else -1) with (-1).
    unfold uncut, int_in_range, Go.int_min, Go.int_max in *.
    change (steps_to_zero (-1)) with (2 ^ 64 - 1). lia. }
  split; apply Hgen.
Qed.

Lemma depth_saturation_witness :
  int_in_range 4 ∧
  Flatten doc_abcde "p:" PathStyle 4 = Flatten doc_abcde "p:" PathStyle (-1).
Proof.
  split; [by vm_compute|].
  apply (depth_saturation doc_abcde "p:" PathStyle 4); [by vm_compute|].
  right. split; [lia|by vm_compute].
Defined.

(** X2: with depth -1, [FlattenNoArray] returns a flat map that holds no
    map as a value: every value is a leaf or a slice kept whole.  (The
    input is one a 64-bit machine can hold, as for the full flatten.) *)
Theorem full_flatten_no_array_stores_no_map nested prefix style
    (Hfits : Z.of_nat (height (VMap nested)) < 2 ^ 63) :
  ∃ fm : FlatMap,
    FlattenNoArray nested prefix style (-1) = (Some fm, None) ∧
    ∀ key m, fm !! key ≠ Some (VMap m).
Proof.
  eexists. split; [by apply flattenInternal_nonzero|].
  intros key m Hkey.
  eapply (map_Forall_lookup_1 _ _ _ _
            (flatten_uncut_storable style true (VMap nested) true ∅ prefix
               _ _ (map_Forall_empty _))) in Hkey.
  exact Hkey.
  Unshelve.
  apply (uncut_start nested (-1)); [by vm_compute|]. left. by split.
Qed.

Lemma full_flatten_no_array_stores_no_map_witness :
  Z.of_nat (height (VMap doc_z)) < 2 ^ 63 ∧
  ∃ fm : FlatMap,
    FlattenNoArray doc_z EmptyString DotStyle (-1) = (Some fm, None) ∧
    ∀ key m, fm !! key ≠ Some (VMap m).
Proof.
  split; [reflexivity|].
  apply (full_flatten_no_array_stores_no_map doc_z EmptyString DotStyle).
  reflexivity.
Defined.

(** ** What the walk does to the flat map it is handed *)

Section Frame.

Variables (style : SeparatorStyle) (keepArrays : bool).

Lemma assign_frame depth (flatMap : FlatMap) newKey v :
  (∀ top (fm : FlatMap) prefix depth,
     (flatten top fm v prefix style depth keepArrays).1 =
     (flatten top ∅ v prefix style depth keepArrays).1 ∪ fm) →
  (assign style depth keepArrays flatMap newKey v).1 =
  (assign style depth keepArrays ∅ newKey v).1 ∪ flatMap.
Proof.
  intros IH. destruct v as [s|m|l].
  - rewrite !assign_scalar. cbn [fst].
    by rewrite <- insert_union_l, (left_id_L ∅ (∪)).
  - rewrite !assign_nested by (by intros []). apply IH.
  - rewrite !assign_nested by (by intros []). apply IH.
Qed.

Lemma rangeMap_frame top prefix depth m :
  Forall (λ kv : string * Value,
            ∀ top (fm : FlatMap) prefix depth,
              (flatten top fm kv.2 prefix style depth keepArrays).1 =
              (flatten top ∅ kv.2 prefix style depth keepArrays).1 ∪ fm) m →
  ∀ flatMap : FlatMap,
    rangeMap top prefix style depth keepArrays m flatMap =
    rangeMap top prefix style depth keepArrays m ∅ ∪ flatMap.
Proof.
  induction m as [|[k v] m IHm]; intros IH flatMap.
  - cbn [rangeMap]. by rewrite (left_id_L ∅ (∪)).
  - inversion_clear IH as [|?? IHv IHrest]. cbn [rangeMap].
    rewrite (IHm IHrest (assign _ _ _ flatMap _ _).1).
    rewrite (IHm IHrest (assign _ _ _ ∅ _ _).1).
    rewrite (assign_frame depth flatMap) by done.
    by rewrite (assoc_L (∪)).
Qed.

Lemma rangeSlice_frame top prefix depth l :
  Forall (λ v,
            ∀ top (fm : FlatMap) prefix depth,
              (flatten top fm v prefix style depth keepArrays).1 =
              (flatten top ∅ v prefix style depth keepArrays).1 ∪ fm) l →
  ∀ i (flatMap : FlatMap),
    rangeSlice top prefix style depth keepArrays i l flatMap =
    rangeSlice top prefix style depth keepArrays i l ∅ ∪ flatMap.
Proof.
  induction l as [|v l IHl]; intros IH i flatMap.
  - cbn [rangeSlice]. by rewrite (left_id_L ∅ (∪)).
  - inversion_clear IH as [|?? IHv IHrest]. cbn [rangeSlice].
    rewrite (IHl IHrest _ (assign _ _ _ flatMap _ _).1).
    rewrite (IHl IHrest _ (assign _ _ _ ∅ _ _).1).
    rewrite (assign_frame depth flatMap) by done.
    by rewrite (assoc_L (∪)).
Qed.

Lemma flatten_frame v :
  ∀ top (fm : FlatMap) prefix depth,
    (flatten top fm v prefix style depth keepArrays).1 =
    (flatten top ∅ v prefix style depth keepArrays).1 ∪ fm.
Proof.
  induction v as [s|m IH|l IH] using Value_ind;
    intros top fm prefix depth; rewrite !flatten_unfold;
    destruct (depth =? 0); cbn [fst];
    try (by rewrite <- insert_union_l, (left_id_L ∅ (∪))).
  - by rewrite (left_id_L ∅ (∪)).
  - by apply rangeMap_frame.
  - destruct (negb keepArrays); cbn [fst].
    + by apply rangeSlice_frame.
    + by rewrite <- insert_union_l, (left_id_L ∅ (∪)).
Qed.

End Frame.

(** X3: [flatten] only adds to the flat map it is handed, or overwrites:
    the map it returns is the map it would build from the empty flat
    map, laid over the map that came in.  So an entry that came in
    stays unless the walk writes its key, and no key is ever removed. *)
Theorem flatten_extends_flat_map top (flatMap : FlatMap) nested prefix style
    depth keepArrays :
  (flatten top flatMap nested prefix style depth keepArrays).1 =
    (flatten top ∅ nested prefix style depth keepArrays).1 ∪ flatMap ∧
  dom flatMap ⊆
    dom (flatten top flatMap nested prefix style depth keepArrays).1.
Proof.
  split; [apply flatten_frame|].
  rewrite flatten_frame, dom_union_L. set_solver.
Qed.

(** X4: the flat map of a map is built entry by entry: flattening
    [m1 ++ m2] (the entries of [m1] ranged over first) is flattening
    [m1] and laying the flat map of [m2] over the result, an entry of
    [m2] winning where both write one key. *)
Theorem flatten_map_app top (flatMap : FlatMap) m1 m2 prefix style depth
    keepArrays (Hdepth : depth ≠ 0) :
  (flatten top flatMap (VMap (m1 ++ m2)) prefix style depth keepArrays).1 =
  (flatten top ∅ (VMap m2) prefix style depth keepArrays).1 ∪
  (flatten top flatMap (VMap m1) prefix style depth keepArrays).1.
Proof.
  rewrite !flatten_map by done. cbn [fst]. rewrite rangeMap_app.
  apply rangeMap_frame, Forall_forall. intros ? _. apply flatten_frame.
Qed.

Lemma flatten_map_app_witness :
  (-1) ≠ 0 ∧
  (flatten true ∅ (VMap (doc_ab ++ doc_z)) "p." DotStyle (-1) false).1 =
  (flatten true ∅ (VMap doc_z) "p." DotStyle (-1) false).1 ∪
  (flatten true ∅ (VMap doc_ab) "p." DotStyle (-1) false).1.
Proof.
  split; [lia|].
  apply (flatten_map_app true ∅ doc_ab doc_z "p." DotStyle (-1) false). lia.
Defined.

(** ** The order in which a map is ranged over *)

Lemma entry_keys_assign top prefix style depth keepArrays k v :
  depth ≠ 0 →
  entry_keys top prefix style depth keepArrays (k, v) =
  dom (assign style depth keepArrays ∅ (enkey top prefix k style) v).1.
Proof. intros Hd. unfold entry_keys. by rewrite flatten_map. Qed.

Lemma assign_frame_all style depth keepArrays (flatMap : FlatMap) newKey v :
  (assign style depth keepArrays flatMap newKey v).1 =
  (assign style depth keepArrays ∅ newKey v).1 ∪ flatMap.
Proof. apply assign_frame. intros. apply flatten_frame. Qed.

Lemma rangeMap_Permutation top prefix style depth keepArrays m m' :
  depth ≠ 0 →
  m ≡ₚ m' →
  NoDup m.*1 →
  (∀ e1 e2, e1 ∈ m → e2 ∈ m → e1.1 ≠ e2.1 →
     entry_keys top prefix style depth keepArrays e1 ##
     entry_keys top prefix style depth keepArrays e2) →
  ∀ flatMap : FlatMap,
    rangeMap top prefix style depth keepArrays m flatMap =
    rangeMap top prefix style depth keepArrays m' flatMap.
Proof.
  intros Hd Hperm.
  induction Hperm as [|[k v] l l' Hperm IH|[k1 v1] [k2 v2] l|l l' l'' H1 IH1 H2 IH2];
    intros Hnd Hdisj flatMap.
  - done.
  - cbn [rangeMap]. apply IH.
    + by apply NoDup_cons in Hnd as [_ ?].
    + intros e1 e2 ??. apply Hdisj; by right.
  - cbn [rangeMap]. f_equal.
    rewrite (assign_frame_all _ _ _ (assign _ _ _ flatMap _ _).1).
    rewrite (assign_frame_all _ _ _ flatMap).
    rewrite (assign_frame_all _ _ _ (assign _ _ _ flatMap _ _).1).
    rewrite (assign_frame_all _ _ _ flatMap).
    rewrite !(assoc_L (∪)). f_equal.
    apply map_union_comm, map_disjoint_dom.
    rewrite <- !entry_keys_assign by done.
    apply Hdisj; [set_solver..|].
    cbn [fmap list_fmap fst] in Hnd. cbn [fst].
    apply NoDup_cons in Hnd as [Hnotin _]. set_solver.
  - rewrite IH1 by done. apply IH2.
    + by rewrite <- H1.
    + intros e1 e2 ??. apply Hdisj; by rewrite H1.
Qed.

(** X5: when no two entries of a map write a common key, the flat map
    does not depend on the order in which [range] visits the entries:
    two orders of the same entries (their keys distinct, as in any Go
    map) give the same result. *)
Theorem flatten_order_independent top (flatMap : FlatMap) m m' prefix style
    depth keepArrays
    (Hdepth : depth ≠ 0)
    (Hperm : m ≡ₚ m')
    (Hkeys : NoDup m.*1)
    (Hapart : ∀ e1 e2, e1 ∈ m → e2 ∈ m → e1.1 ≠ e2.1 →
                entry_keys top prefix style depth keepArrays e1 ##
                entry_keys top prefix style depth keepArrays e2) :
  flatten top flatMap (VMap m) prefix style depth keepArrays =
  flatten top flatMap (VMap m') prefix style depth keepArrays.
Proof.
  rewrite !flatten_map by done. f_equal.
  by apply rangeMap_Permutation.
Qed.

Lemma flatten_order_independent_witness :
  flatten true ∅ (VMap (doc_ab ++ doc_z)) EmptyString DotStyle (-1) false =
  flatten true ∅ (VMap (doc_z ++ doc_ab)) EmptyString DotStyle (-1) false.
Proof.
  apply (flatten_order_independent true ∅ (doc_ab ++ doc_z) (doc_z ++ doc_ab)
           EmptyString DotStyle (-1) false).
  - lia.
  - apply Permutation_app_comm.
  - apply (bool_decide_unpack _). by vm_compute.
  - intros e1 e2 He1 He2 Hne.
    apply list_elem_of_In in He1, He2. cbn in He1, He2.
    destruct He1 as [<-|[<-|[]]], He2 as [<-|[<-|[]]];
      try (by destruct Hne);
      apply (bool_decide_unpack _); by vm_compute.
Defined.

(** X6: without that, the order shows: there are two orders of one map
    with distinct keys, one entry writing a key another one writes too,
    that [Flatten] turns into different flat maps. *)
Theorem flatten_order_shows_on_clash :
  ¬ ∀ m m' prefix style depth,
      NoDup m.*1 → m ≡ₚ m' →
      Flatten m prefix style depth = Flatten m' prefix style depth.
Proof.
  intros H.
  specialize (H doc_clash doc_clash_swapped EmptyString DotStyle (-1)).
  assert (Flatten doc_clash EmptyString DotStyle (-1) =
          Flatten doc_clash_swapped EmptyString DotStyle (-1)) as Heq.
  { apply H.
    - apply (bool_decide_unpack _). by vm_compute.
    - apply perm_swap. }
  apply (f_equal (λ r : option FlatMap * option Error,
                    fm ← r.1; fm !! "a.b")) in Heq.
  vm_compute in Heq. discriminate Heq.
Qed.


(** ** Maps that are flat already *)

Lemma kmap_append_empty (fm : FlatMap) :
  kmap (M2 := gmap string) (String.append EmptyString) fm = fm.
Proof.
  apply map_eq. intros key.
  change key with (String.append EmptyString key) at 1.
  by rewrite lookup_kmap by apply _.
Qed.

Lemma rangeMap_flat prefix style depth keepArrays m :
  Forall (λ kv : string * Value, is_scalar kv.2) m →
  NoDup m.*1 →
  ∀ flatMap : FlatMap,
    rangeMap true prefix style depth keepArrays m flatMap =
    kmap (String.append prefix) (list_to_map m) ∪ flatMap.
Proof.
  induction m as [|[k v] m IH]; intros Hs Hnd flatMap.
  - cbn [rangeMap list_to_map foldr].
    by rewrite kmap_empty, (left_id_L ∅ (∪)).
  - inversion_clear Hs as [|?? Hv Hrest]. cbn [snd] in Hv.
    cbn [fmap list_fmap fst] in Hnd. apply NoDup_cons in Hnd as [Hk Hnd].
    destruct v as [s| |]; [|done..].
    cbn [rangeMap]. rewrite assign_scalar. cbn [fst].
    rewrite IH by done. rewrite list_to_map_cons.
    rewrite kmap_insert by apply _.
    rewrite <- insert_union_l. rewrite insert_union_r; [done|].
    rewrite lookup_kmap by apply _.
    by apply not_elem_of_list_to_map_1.
Qed.

(** The depth the walk starts with is 0 only if the caller's is. *)
Lemma start_depth_nonzero depth :
  int_in_range depth → depth ≠ 0 →
  (if 0 <? depth then Go.int_wrap (depth + 1) else depth) ≠ 0.
Proof.
  unfold int_in_range, Go.int_min, Go.int_max. intros Hr Hd.
  destruct (Z.ltb_spec 0 depth) as [Hpos|_]; [|done].
  destruct (decide (depth = 2 ^ 63 - 1)) as [->|]; [done|].
  rewrite int_wrap_in_range by (unfold Go.int_min, Go.int_max; lia). lia.
Qed.

Lemma flattenInternal_flat m prefix style depth keepArrays :
  Forall (λ kv : string * Value, is_scalar kv.2) m →
  NoDup m.*1 →
  int_in_range depth → depth ≠ 0 →
  flattenInternal m prefix style depth keepArrays =
  (Some (kmap (String.append prefix) (list_to_map m)), None).
Proof.
  intros Hs Hnd Hr Hd. rewrite flattenInternal_nonzero by done.
  rewrite flatten_map by (by apply start_depth_nonzero).
  cbn [fst]. rewrite rangeMap_flat by done.
  by rewrite (right_id_L ∅ (∪)).
Qed.

(** X7: a map that is flat already (leaves only, its keys distinct)
    comes back from [Flatten] and [FlattenNoArray] with the prefix in
    front of its keys and nothing else changed, at every depth other
    than 0; with the empty prefix it comes back as it is, at every
    depth. *)
Theorem flatten_flat_map m prefix style depth keepArrays
    (Hflat : Forall (λ kv : string * Value, is_scalar kv.2) m)
    (Hkeys : NoDup m.*1)
    (Hint : int_in_range depth) :
  (depth ≠ 0 →
   flattenInternal m prefix style depth keepArrays =
   (Some (kmap (String.append prefix) (list_to_map m)), None)) ∧
  flattenInternal m EmptyString style depth keepArrays =
    (Some (list_to_map m), None).
Proof.
  split; [by apply flattenInternal_flat|].
  destruct (decide (depth = 0)) as [->|Hd]; [done|].
  rewrite flattenInternal_flat by done. by rewrite kmap_append_empty.
Qed.

Lemma flatten_flat_map_witness :
  Flatten [("a", VStr "b"); ("n", VScalar SNil)] "p:" RailsStyle 1 =
  (Some {[ "p:a" := VStr "b"; "p:n" := VScalar SNil ]}, None).
Proof.
  refine (proj1 (flatten_flat_map [("a", VStr "b"); ("n", VScalar SNil)]
                   "p:" RailsStyle 1 false _ _ _) _).
  - by repeat constructor.
  - apply (bool_decide_unpack _). by vm_compute.
  - by vm_compute.
  - lia.
Defined.

(** X8: a full flatten is idempotent: the flat map [Flatten] returns at
    depth -1, handed to [Flatten] again with the empty prefix, in any
    order of its entries, any style and any depth, comes back
    unchanged. *)
Theorem full_flatten_idempotent nested prefix style style' depth'
    (Hfits : Z.of_nat (height (VMap nested)) < 2 ^ 63)
    (Hint : int_in_range depth') :
  ∃ fm : FlatMap,
    Flatten nested prefix style (-1) = (Some fm, None) ∧
    ∀ again : Mapping,
      again ≡ₚ map_to_list fm →
      Flatten again EmptyString style' depth' = (Some fm, None).
Proof.
  eexists. split; [by apply flattenInternal_nonzero|].
  change (if 0 <? -1 then Go.int_wrap (-1 + 1) else -1) with (-1).
  set (fm := (flatten _ _ _ _ _ _ _).1).
  assert (all_scalars fm) as Hfm.
  { apply flatten_writes_scalars; [lia| |apply map_Forall_empty].
    unfold Go.int_min. lia. }
  intros again Hperm.
  assert (list_to_map again = fm) as Hagain.
  { rewrite <- (list_to_map_to_list fm). symmetry.
    apply list_to_map_proper; [apply NoDup_fst_map_to_list|done]. }
  assert (NoDup again.*1) as Hnd.
  { rewrite Hperm. apply NoDup_fst_map_to_list. }
  assert (Forall (λ kv : string * Value, is_scalar kv.2) again) as Hs.
  { rewrite Hperm. apply map_Forall_to_list in Hfm.
    eapply Forall_impl; [exact Hfm|]. by intros [??]. }
  destruct (decide (depth' = 0)) as [->|Hd].
  - unfold Flatten, flattenInternal. cbn. by rewrite Hagain.
  - unfold Flatten. rewrite flattenInternal_flat by done.
    by rewrite kmap_append_empty, Hagain.
Qed.

Lemma full_flatten_idempotent_witness :
  ∃ fm : FlatMap,
    Flatten doc_abcde EmptyString DotStyle (-1) = (Some fm, None) ∧
    ∀ again : Mapping,
      again ≡ₚ map_to_list fm →
      Flatten again EmptyString PathStyle 3 = (Some fm, None).
Proof.
  apply (full_flatten_idempotent doc_abcde EmptyString DotStyle PathStyle 3).
  - reflexivity.
  - by vm_compute.
Defined.

(** ** Keys of siblings *)

Lemma list_ascii_of_append (s1 s2 : string) :
  list_ascii_of_string (s1 +:+ s2) =
  list_ascii_of_string s1 ++ list_ascii_of_string s2.
Proof.
  induction s1 as [|c s1 IH]; [reflexivity|].
  change (c :: list_ascii_of_string (s1 +:+ s2) =
          c :: (list_ascii_of_string s1 ++ list_ascii_of_string s2)).
  by rewrite IH.
Qed.

Lemma append_inj_r (s1 s2 t : string) : s1 +:+ t = s2 +:+ t → s1 = s2.
Proof.
  intros H%(f_equal list_ascii_of_string).
  rewrite !list_ascii_of_append in H. apply (inj (.++ _)) in H.
  apply (f_equal string_of_list_ascii) in H.
  by rewrite !string_of_list_ascii_of_string in H.
Qed.

Lemma enkey_inj top prefix style k1 k2 :
  enkey top prefix k1 style = enkey top prefix k2 style → k1 = k2.
Proof.
  unfold enkey. cbv zeta. destruct top.
  - by intros ?%(inj (String.append prefix)).
  - intros H%(inj (String.append prefix)).
    apply append_inj_r in H. by apply (inj (String.append _)) in H.
Qed.

(** X9: under one parent key, two different sub-keys never compose to
    the same key, in any style and at the top level or below. *)
Theorem enkey_distinct_subkeys top prefix style k1 k2 (Hne : k1 ≠ k2) :
  enkey top prefix k1 style ≠ enkey top prefix k2 style.
Proof. intros H. by apply Hne, (enkey_inj top prefix style). Qed.

Lemma enkey_distinct_subkeys_witness :
  enkey false "a" "b" RailsStyle ≠ enkey false "a" "c" RailsStyle.
Proof.
  apply (enkey_distinct_subkeys false "a" RailsStyle "b" "c"). discriminate.
Defined.

(** ** Slices of leaves *)

Lemma rangeSlice_leaves_other top prefix style depth (ss : list Scalar) :
  ∀ i (flatMap : FlatMap) key,
    (∀ j, i ≤ j → key ≠ enkey top prefix (Go.Itoa j) style) →
    rangeSlice top prefix style depth false i (VScalar <$> ss) flatMap !! key =
    flatMap !! key.
Proof.
  induction ss as [|s ss IH]; intros i flatMap key Hkey; [done|].
  cbn [fmap list_fmap rangeSlice]. rewrite assign_scalar. cbn [fst].
  rewrite IH by (intros j ?; apply Hkey; lia).
  rewrite lookup_insert_ne; [done|]. intros Heq. by apply (Hkey i).
Qed.

Lemma rangeSlice_leaves_index top prefix style depth (ss : list Scalar) :
  ∀ (n : nat) i (flatMap : FlatMap) s,
    ss !! n = Some s →
    rangeSlice top prefix style depth false i (VScalar <$> ss) flatMap
      !! enkey top prefix (Go.Itoa (i + Z.of_nat n)) style =
    Some (VScalar s).
Proof.
  induction ss as [|s0 ss IH]; intros n i flatMap s Hn; [done|].
  cbn [fmap list_fmap rangeSlice]. rewrite assign_scalar. cbn [fst].
  destruct n as [|n].
  - injection Hn as ->. rewrite Z.add_0_r.
    rewrite rangeSlice_leaves_other.
    + by rewrite lookup_insert_eq.
    + intros j Hj Heq. apply enkey_inj in Heq.
      apply (inj pretty) in Heq. lia.
  - replace (i + Z.of_nat (S n)) with (i + 1 + Z.of_nat n) by lia.
    by apply IH.
Qed.

(** X10: the items of a slice of leaves are stored under their 0-based
    decimal indices: item [i] is found under the key composed from the
    prefix and [strconv.Itoa i], whatever the flat map held before. *)
Theorem flatten_slice_item top (flatMap : FlatMap) (ss : list Scalar) prefix
    style depth (i : nat) s
    (Hdepth : depth ≠ 0) (Hitem : ss !! i = Some s) :
  (flatten top flatMap (VSlice (VScalar <$> ss)) prefix style depth false).1
    !! enkey top prefix (Go.Itoa (Z.of_nat i)) style =
  Some (VScalar s).
Proof.
  rewrite flatten_slice by done. cbn [fst].
  by apply (rangeSlice_leaves_index _ _ _ _ _ i 0).
Qed.

Lemma flatten_slice_item_witness :
  (flatten false {[ "z.1" := VStr "old" ]}
           (VSlice (VScalar <$> [SString "one"; SString "two"])) "z"
           DotStyle (-3) false).1 !! "z.1" =
  Some (VStr "two").
Proof.
  apply (flatten_slice_item false {[ "z.1" := VStr "old" ]}
           [SString "one"; SString "two"] "z" DotStyle (-3) 1 (SString "two"));
    [lia|reflexivity].
Defined.

(** ** Documents without slices *)

Lemma no_slices_entries m :
  no_slices (VMap m) → Forall (λ kv : string * Value, no_slices kv.2) m.
Proof.
  induction m as [|[k v] m IH]; [by constructor|].
  intros [Hv Hrest]. constructor; [done|by apply IH].
Qed.

Lemma flatten_no_slices style v :
  no_slices v →
  ∀ top (fm : FlatMap) prefix depth,
    flatten top fm v prefix style depth true =
    flatten top fm v prefix style depth false.
Proof.
  induction v as [s|m IH|l IH] using Value_ind; intros Hns top fm prefix depth;
    [by rewrite !flatten_unfold| |by destruct Hns].
  rewrite !flatten_unfold. destruct (depth =? 0); [done|]. f_equal.
  apply no_slices_entries in Hns. revert fm.
  induction m as [|[k v] m IHm]; intros fm; [done|].
  inversion_clear IH as [|?? IHv IHrest].
  inversion_clear Hns as [|?? Hv Hrest]. cbn [snd] in *.
  cbn [rangeMap].
  assert (assign style depth true fm (enkey top prefix k style) v =
          assign style depth false fm (enkey top prefix k style) v) as ->.
  { destruct v as [s|m'|l]; [done| |by destruct Hv].
    rewrite !assign_nested by (by intros []). by apply IHv. }
  by apply IHm.
Qed.

(** X11: on a document that holds no slice, preserving slices changes
    nothing: [FlattenNoArray] and [Flatten] return the same. *)
Theorem no_array_same_without_slices nested prefix style depth
    (Hnone : no_slices (VMap nested)) :
  FlattenNoArray nested prefix style depth =
  Flatten nested prefix style depth.
Proof.
  unfold FlattenNoArray, Flatten, flattenInternal.
  destruct (depth =? 0); [done|]. cbv zeta.
  by rewrite (flatten_no_slices style (VMap nested)).
Qed.

Lemma no_array_same_without_slices_witness :
  FlattenNoArray doc_abcde "p" UnderscoreStyle 2 =
  Flatten doc_abcde "p" UnderscoreStyle 2.
Proof.
  apply (no_array_same_without_slices doc_abcde "p" UnderscoreStyle 2).
  by vm_compute.
Defined.

(** ** The text front end *)

Lemma flattenInternal_ok nested prefix style depth keepArrays :
  ∃ fm : FlatMap,
    flattenInternal nested prefix style depth keepArrays = (Some fm, None).
Proof.
  destruct (decide (depth = 0)) as [->|Hd].
  - by eexists.
  - eexists. by apply flattenInternal_nonzero.
Qed.

Section TextPipeline.

Variable json_Unmarshal : string → Mapping * option Error.
Variable json_Marshal : option FlatMap → string * option Error.

(** Decode, flatten, encode, the first error ending the run. *)
Lemma flattenStringInternal_pipeline s prefix style depth keepArrays :
  begins_with_brace s →
  flattenStringInternal json_Unmarshal json_Marshal s prefix style depth
    keepArrays =
  match json_Unmarshal s with
  | (_, Some err) => (EmptyString, Some err)
  | (nested, None) =>
      match json_Marshal
              (flattenInternal nested prefix style depth keepArrays).1 with
      | (_, Some err) => (EmptyString, Some err)
      | (text, None) => (text, None)
      end
  end.
Proof.
  intros Hs%isJsonMap_spec. unfold flattenStringInternal. rewrite Hs.
  cbn [negb]. destruct (json_Unmarshal s) as [nested [err|]]; [done|].
  by destruct (flattenInternal_ok nested prefix style depth keepArrays)
    as [fm ->].
Qed.

Lemma flattenStringInternal_error_text s prefix style depth keepArrays :
  (flattenStringInternal json_Unmarshal json_Marshal s prefix style depth
     keepArrays).2 = None ∨
  (flattenStringInternal json_Unmarshal json_Marshal s prefix style depth
     keepArrays).1 = EmptyString.
Proof.
  unfold flattenStringInternal.
  destruct (negb (isJsonMap s)); [by right|].
  destruct (json_Unmarshal s) as [nested [err|]]; [by right|].
  destruct (flattenInternal _ _ _ _ _) as [fm [err|]]; [by right|].
  destruct (json_Marshal fm) as [text [err|]]; [by right|by left].
Qed.

End TextPipeline.

(** X12: on a text that passes the lexical check, [FlattenString] and
    [FlattenStringNoArray] are the decoder, then [Flatten] or
    [FlattenNoArray], then the encoder: a decoder error is handed on as
    it is with the empty string, the flattening itself never fails, and
    an encoder error is handed on as it is with the empty string. *)
Theorem flatten_string_pipeline
    (json_Unmarshal : string → Mapping * option Error)
    (json_Marshal : option FlatMap → string * option Error)
    s prefix style depth (Hs : begins_with_brace s) :
  FlattenString json_Unmarshal json_Marshal s prefix style depth =
    match json_Unmarshal s with
    | (_, Some err) => (EmptyString, Some err)
    | (nested, None) =>
        match json_Marshal (Flatten nested prefix style depth).1 with
        | (_, Some err) => (EmptyString, Some err)
        | (text, None) => (text, None)
        end
    end ∧
  FlattenStringNoArray json_Unmarshal json_Marshal s prefix style depth =
    match json_Unmarshal s with
    | (_, Some err) => (EmptyString, Some err)
    | (nested, None) =>
        match json_Marshal (FlattenNoArray nested prefix style depth).1 with
        | (_, Some err) => (EmptyString, Some err)
        | (text, None) => (text, None)
        end
    end.
Proof. split; by apply flattenStringInternal_pipeline. Qed.

Lemma flatten_string_pipeline_witness :
  FlattenString (λ _, (doc_ab, None)) (λ _, ("encoded", None))
                " {x" "flag-" DotStyle (-1) =
  ("encoded", None).
Proof.
  apply (flatten_string_pipeline (λ _, (doc_ab, None))
           (λ _, ("encoded", None)) " {x" "flag-" DotStyle (-1)).
  apply isJsonMap_spec. reflexivity.
Defined.

(** X13: whenever [FlattenString] or [FlattenStringNoArray] returns an
    error, the text it returns is the empty string, whatever the JSON
    codec does. *)
Theorem flatten_string_error_has_no_text
    (json_Unmarshal : string → Mapping * option Error)
    (json_Marshal : option FlatMap → string * option Error)
    s prefix style depth :
  ((FlattenString json_Unmarshal json_Marshal s prefix style depth).2 = None ∨
   (FlattenString json_Unmarshal json_Marshal s prefix style depth).1 =
     EmptyString) ∧
  ((FlattenStringNoArray json_Unmarshal json_Marshal s prefix style depth).2 =
     None ∨
   (FlattenStringNoArray json_Unmarshal json_Marshal s prefix style depth).1 =
     EmptyString).
Proof. split; apply flattenStringInternal_error_text. Qed.

(** X14: the lexical check [isJsonMap] accepts exactly the texts made
    of [\s] characters, an opening brace, and anything after it; what
    follows the brace is never looked at. *)
Theorem lexical_check_exact s :
  (isJsonMap s = true ↔ begins_with_brace s) ∧
  (∀ ws rest,
     Forall (λ c, Go.is_space c = true) (list_ascii_of_string ws) →
     isJsonMap (ws +:+ String "{"%char rest) = true).
Proof.
  split; [apply isJsonMap_spec|].
  intros ws rest Hws. apply isJsonMap_spec. by exists ws, rest.
Qed.

(** ** Keys along a path *)

Lemma flatten_nest style keepArrays leaf path :
  ∀ top (fm : FlatMap) prefix d k,
    int_in_range d → d ≠ 0 →
    Z.of_nat (S (List.length path)) ≤ steps_to_zero d →
    (flatten top fm (VMap [(k, nest path leaf)]) prefix style d keepArrays).1 =
    <[enkeyPath top prefix (k :: path) style := VScalar leaf]> fm.
Proof.
  induction path as [|k' path IH]; intros top fm prefix d k Hr Hd Hlen;
    rewrite flatten_map by done; cbn [fst rangeMap nest].
  - by rewrite assign_scalar.
  - rewrite assign_nested by (by intros []).
    cbn [List.length] in Hlen.
    assert (d ≠ 1) by (apply steps_to_zero_one; [done..|lia]).
    destruct (int_wrap_pred d) as (? & ? & Hs); [done..|].
    rewrite IH; [done..|]. rewrite Hs. lia.
Qed.

(** X15: a leaf that sits alone at the end of a path of keys is stored
    by [Flatten] and [FlattenNoArray], at depth -1, under the key
    [enkey] composes along the path: the first key composed at the top
    level, every further key as a nested one.  That is the only
    entry. *)
Theorem flatten_path_key k path leaf prefix style keepArrays
    (Hfits : Z.of_nat (S (List.length path)) < 2 ^ 63) :
  flattenInternal [(k, nest path leaf)] prefix style (-1) keepArrays =
  (Some {[ enkeyPath true prefix (k :: path) style := VScalar leaf ]}, None).
Proof.
  rewrite flattenInternal_nonzero by done.
  change (if 0 <? -1 then Go.int_wrap (-1 + 1) else -1) with (-1).
  rewrite flatten_nest; [done|by vm_compute|done|].
  change (steps_to_zero (-1)) with (2 ^ 64 - 1). lia.
Qed.

Lemma flatten_path_key_witness :
  Flatten [("a", nest ["b"; "c"] (SBool true))] "p:" RailsStyle (-1) =
  (Some {[ "p:a[b][c]" := VScalar (SBool true) ]}, None).
Proof.
  apply (flatten_path_key "a" ["b"; "c"] (SBool true) "p:" RailsStyle false).
  reflexivity.
Defined.

Lemma enkeyPath_join_from style prefix k path :
  Before style = EmptyString → After style = EmptyString →
  enkeyPath false (prefix +:+ k) path style =
  prefix +:+ join (Middle style) (k :: path).
Proof.
  intros Hb Ha. revert prefix k.
  induction path as [|k' path IH]; intros prefix k; [done|].
  cbn [enkeyPath]. unfold enkey. cbv zeta. rewrite Hb, Ha.
  rewrite append_empty_r.
  change (EmptyString +:+ Middle style) with (Middle style).
  rewrite <- (append_assoc (prefix +:+ k)).
  rewrite (append_assoc prefix k).
  rewrite IH. by rewrite !append_assoc.
Qed.

(** X16: in a style that has only a [Middle] (Dot, Path, Underscore, a
    custom separator), the key composed along a path is the prefix
    followed by the keys of the path joined with [Middle]. *)
Theorem enkeyPath_is_join style prefix path
    (Hbefore : Before style = EmptyString)
    (Hafter : After style = EmptyString) :
  enkeyPath true prefix path style = prefix +:+ join (Middle style) path.
Proof.
  destruct path as [|k path].
  - cbn [enkeyPath join]. by rewrite append_empty_r.
  - cbn [enkeyPath]. change (enkey true prefix k style) with (prefix +:+ k).
    by apply enkeyPath_join_from.
Qed.

Lemma enkeyPath_is_join_witness :
  enkeyPath true "p:" ["a"; "b"; "c"] (mkStyle EmptyString "--" EmptyString) =
  "p:" +:+ join "--" ["a"; "b"; "c"].
Proof.
  apply (enkeyPath_is_join (mkStyle EmptyString "--" EmptyString) "p:"
           ["a"; "b"; "c"]); reflexivity.
Defined.

(** ** Depth limits along a path *)

Lemma flatten_nest_cut style keepArrays leaf path :
  ∀ top (fm : FlatMap) prefix d k,
    0 < d → d ≤ Go.int_max →
    (flatten top fm (VMap [(k, nest path leaf)]) prefix style d keepArrays).1 =
    <[enkeyPath top prefix (k :: take (Z.to_nat (d - 1)) path) style :=
        nest (drop (Z.to_nat (d - 1)) path) leaf]> fm.
Proof.
  induction path as [|k' path IH]; intros top fm prefix d k Hpos Hmax;
    rewrite flatten_map by lia; cbn [fst rangeMap nest].
  - rewrite assign_scalar. by rewrite take_nil, drop_nil.
  - rewrite assign_nested by (by intros []).
    rewrite int_wrap_in_range
      by (unfold Go.int_min, Go.int_max in *; lia).
    destruct (decide (d = 1)) as [->|Hd].
    + by rewrite flatten_depth_0.
    + rewrite IH by lia.
      replace (Z.to_nat (d - 1)) with (S (Z.to_nat (d - 1 - 1))) by lia.
      done.
Qed.

(** X17: a positive depth [N] collapses [N + 1] keys of a path into the
    flat key and stores what is left of the document under it: for a
    leaf alone at the end of the path [k, k1, ..., kn], [Flatten] and
    [FlattenNoArray] return the one entry whose key is composed from
    [k, k1, ..., kN] and whose value is the document of the remaining
    keys, the leaf itself when [N] reaches the end of the path. *)
Theorem flatten_path_cut k path leaf prefix style N keepArrays
    (Hpos : 0 < N) (Hmax : N < Go.int_max) :
  flattenInternal [(k, nest path leaf)] prefix style N keepArrays =
  (Some {[ enkeyPath true prefix (k :: take (Z.to_nat N) path) style :=
             nest (drop (Z.to_nat N) path) leaf ]}, None).
Proof.
  rewrite flattenInternal_nonzero by lia.
  rewrite (proj2 (Z.ltb_lt 0 N)) by done.
  rewrite int_wrap_in_range by (unfold Go.int_min, Go.int_max in *; lia).
  rewrite flatten_nest_cut by lia.
  by replace (N + 1 - 1) with N by lia.
Qed.

Lemma flatten_path_cut_witness :
  Flatten [("a", nest ["b"; "c"; "d"] (SString "e"))] EmptyString
          UnderscoreStyle 2 =
  (Some {[ "a_b_c" := VMap [("d", VStr "e")] ]}, None).
Proof.
  apply (flatten_path_cut "a" ["b"; "c"; "d"] (SString "e") EmptyString
           UnderscoreStyle 2 false); by vm_compute.
Defined.

(** ** Slices as leaves *)

Lemma rangeMap_flat_keep prefix style depth m :
  Forall (λ kv : string * Value, storable true kv.2) m →
  NoDup m.*1 →
  ∀ flatMap : FlatMap,
    rangeMap true prefix style depth true m flatMap =
    kmap (String.append prefix) (list_to_map m) ∪ flatMap.
Proof.
  induction m as [|[k v] m IH]; intros Hs Hnd flatMap.
  - cbn [rangeMap list_to_map foldr].
    by rewrite kmap_empty, (left_id_L ∅ (∪)).
  - inversion_clear Hs as [|?? Hv Hrest]. cbn [snd] in Hv.
    cbn [fmap list_fmap fst] in Hnd. apply NoDup_cons in Hnd as [Hk Hnd].
    cbn [rangeMap].
    assert ((assign style depth true flatMap (enkey true prefix k style) v).1 =
            <[prefix +:+ k := v]> flatMap) as ->.
    { destruct v as [s|m'|l]; [done|by destruct Hv|].
      rewrite assign_nested by (by intros []).
      rewrite flatten_unfold. by destruct (_ =? 0). }
    rewrite IH by done. rewrite list_to_map_cons.
    rewrite kmap_insert by apply _.
    rewrite <- insert_union_l. rewrite insert_union_r; [done|].
    rewrite lookup_kmap by apply _.
    by apply not_elem_of_list_to_map_1.
Qed.

(** X18: when slices are preserved a slice is a leaf at every depth: a
    map whose values are leaves and slices (its keys distinct) comes
    back from [FlattenNoArray] with the prefix in front of its keys and
    every slice whole, at every depth other than 0. *)
Theorem flatten_no_array_keeps_slices m prefix style depth
    (Hvalues : Forall (λ kv : string * Value, storable true kv.2) m)
    (Hkeys : NoDup m.*1)
    (Hint : int_in_range depth) (Hdepth : depth ≠ 0) :
  FlattenNoArray m prefix style depth =
  (Some (kmap (String.append prefix) (list_to_map m)), None).
Proof.
  unfold FlattenNoArray. rewrite flattenInternal_nonzero by done.
  rewrite flatten_map by (by apply start_depth_nonzero).
  cbn [fst]. rewrite rangeMap_flat_keep by done.
  by rewrite (right_id_L ∅ (∪)).
Qed.

Lemma flatten_no_array_keeps_slices_witness :
  FlattenNoArray (doc_ab ++ doc_z) "p:" DotStyle 1 =
  (Some {[ "p:a" := VStr "b";
           "p:z" := VSlice [VStr "one"; VStr "two"] ]}, None).
Proof.
  apply (flatten_no_array_keeps_slices (doc_ab ++ doc_z) "p:" DotStyle 1).
  - by repeat constructor.
  - apply (bool_decide_unpack _). by vm_compute.
  - by vm_compute.
  - lia.
Defined.
